(** * The responsive navigation toggle of the blog (assets/js/app.js)

    The script wires two handlers once the document is ready:

    - a click handler on every element matched by [.mobile-nav-btn], which
      calls [fadeToggle] on every [nav] element and [toggleClass('open')] on
      the clicked element;
    - a resize handler on the window, which compares [$(window).width()]
      with 992 and 991 and force-sets the [display] of every [nav] element
      (and, in the wide branch, removes the class [open] from every
      [.mobile-nav-btn] element).

    jQuery itself is a third-party library; its methods are embedded by
    their documented contract.  The development has two layers.

    The first holds the states the script leaves once every fade has come
    to its end: the document is the list of its element nodes, a jQuery
    object the set of nodes it matches, [fadeToggle] the flip of the display
    it ends in, and an event one run of a handler.

    The second adds what the first leaves out of a running page: the tree,
    through which a click bubbles, and the [fx] queue of every element,
    through which a fade takes its time.  It is used where a statement
    depends on either, and it settles in the states of the first layer
    (theorem [settled_simulation]).

    Events are handled one at a time, each handler running to completion. *)

From Stdlib Require Import ZArith Lia.
From stdpp Require Import base decidable strings list gmap.

#[local] Set Warnings "-clear-no-such-hyp".

(** ** Document model *)

(** The computed [display] of an element, as far as the script can tell the
    values apart: ['none'] against anything else (written ['block'], the
    value the script itself assigns). *)
Inductive Display := block | none.

#[global] Instance Display_eq_dec : EqDecision Display.
Proof. solve_decision. Defined.

(** An element node: its tag name, its [class] attribute as the set of class
    names (no selector or method of the script depends on their order), and
    its display. *)
Record Element := mkElement {
  tag : string;
  classes : gset string;
  display : Display
}.

#[global] Instance Element_eq_dec : EqDecision Element.
Proof. solve_decision. Defined.

(** The browser state the script reads and writes: the window width returned
    by [$(window).width()], a whole number of pixels, and the element nodes
    of the document. *)
Record Browser := mkBrowser {
  width : Z;
  document : list Element
}.

(** ** jQuery objects and methods *)

(** A jQuery object is the set of matched nodes; a node is identified by its
    position in the document. *)
Definition jQuery := nat → Element → bool.

(** [$('nav')]: the elements with this tag name. *)
Definition by_tag (t : string) : jQuery :=
  λ _ e, bool_decide (tag e = t).

(** [$('.mobile-nav-btn')]: the elements carrying this class. *)
Definition by_class (c : string) : jQuery :=
  λ _ e, bool_decide (c ∈ classes e).

(** [$(this)]: the single node the event was dispatched to. *)
Definition this_node (this : nat) : jQuery :=
  λ i _, bool_decide (i = this).

(** Every jQuery method below runs on each matched node and leaves the other
    nodes alone; on an empty match it does nothing. *)
Definition each (sel : jQuery) (f : Element → Element)
    (doc : list Element) : list Element :=
  imap (λ i e, if sel i e then f e else e) doc.

(** [.css('display', v)] *)
Definition css_display (v : Display) (e : Element) : Element :=
  {| tag := tag e; classes := classes e; display := v |}.

Definition is_hidden (e : Element) : bool :=
  match display e with none => true | block => false end.

(** [.fadeToggle('fast')], as the display the element has when the fade has
    ended.  The fade itself, which hides a displayed element only at its
    end, is [queue_fade] and [finish_fade] below. *)
Definition fadeToggle (e : Element) : Element :=
  css_display (if is_hidden e then block else none) e.

Definition hasClass (c : string) (e : Element) : bool :=
  bool_decide (c ∈ classes e).

Definition addClass (c : string) (e : Element) : Element :=
  {| tag := tag e; classes := classes e ∪ {[c]}; display := display e |}.

Definition removeClass (c : string) (e : Element) : Element :=
  {| tag := tag e; classes := classes e ∖ {[c]}; display := display e |}.

Definition toggleClass (c : string) (e : Element) : Element :=
  if hasClass c e then removeClass c e else addClass c e.

(** ** The two handlers of app.js *)

(** [$('.mobile-nav-btn').click(function () { ... })], run with [this] bound
    to the clicked node. *)
Definition on_click (this : nat) (b : Browser) : Browser :=
  let doc1 := each (by_tag "nav") fadeToggle (document b) in
  let doc2 := each (this_node this) (toggleClass "open") doc1 in
  {| width := width b; document := doc2 |}.

(** The branch the resize handler takes at a window width. *)
Inductive Branch := Wide | Narrow | Neither.

#[global] Instance Branch_eq_dec : EqDecision Branch.
Proof. solve_decision. Defined.

Definition resize_branch (w : Z) : Branch :=
  if (992 <=? w)%Z then Wide
  else if (w <=? 991)%Z then Narrow
  else Neither.

(** The body of the [if], run when [$(window).width() >= 992]. *)
Definition wide_branch (b : Browser) : Browser :=
  let doc1 := each (by_tag "nav") (css_display block) (document b) in
  let doc2 := each (by_class "mobile-nav-btn") (removeClass "open") doc1 in
  {| width := width b; document := doc2 |}.

(** The body of the [else if], run when [$(window).width() <= 991]. *)
Definition narrow_branch (b : Browser) : Browser :=
  let doc1 := each (by_tag "nav") (css_display none) (document b) in
  {| width := width b; document := doc1 |}.

(** [$(window).on('resize', function () { ... })]; there is no final
    [else], so a width failing both tests would leave the state alone. *)
Definition on_resize (b : Browser) : Browser :=
  if (992 <=? width b)%Z then wide_branch b
  else if (width b <=? 991)%Z then narrow_branch b
  else b.

(** ** Events *)

(** The click handler is bound to the nodes matched by [.mobile-nav-btn]; a
    click that arrives at another node runs no code of the script there. *)
Definition bound (n : nat) (b : Browser) : bool :=
  match document b !! n with
  | Some e => by_class "mobile-nav-btn" n e
  | None => false
  end.

(** [Click n] is a click arriving at node [n], as the node it was dispatched
    to or on its way up the tree: jQuery runs the handler bound to [n], if
    there is one, with [this = n].  A click dispatched to a node inside a
    toggle control is the list of its stops ([stops] below); its fades are
    taken at their end. *)
Inductive Event :=
  | Click (n : nat)    (* a click arrives at node [n] *)
  | Resize (w : Z).    (* the window is resized to width [w] *)

Definition step (ev : Event) (b : Browser) : Browser :=
  match ev with
  | Click n => if bound n b then on_click n b else b
  | Resize w => on_resize {| width := w; document := document b |}
  end.

Definition run (evs : list Event) (b : Browser) : Browser :=
  foldl (λ s ev, step ev s) b evs.

(** ** Observations *)

Definition narrow (b : Browser) : Prop := (width b ≤ 991)%Z.

(** Every navigation panel is displayed / hidden. *)
Definition panel_displayed (b : Browser) : Prop :=
  Forall (λ e, tag e = "nav" → display e = block) (document b).

Definition panel_hidden (b : Browser) : Prop :=
  Forall (λ e, tag e = "nav" → display e = none) (document b).

(** No toggle control carries the class [open]. *)
Definition indicator_absent (b : Browser) : Prop :=
  Forall (λ e, "mobile-nav-btn" ∈ classes e → "open" ∉ classes e) (document b).

(** The class [open] on node [n]. *)
Definition open_at (n : nat) (b : Browser) : bool :=
  match document b !! n with
  | Some e => hasClass "open" e
  | None => false
  end.

(** The displays of the navigation panels, in document order. *)
Definition nav_displays (b : Browser) : list Display :=
  display <$> filter (λ e, tag e = "nav") (document b).

(** A small page: a toggle button followed by the navigation panel. *)
Definition btn (open : bool) : Element :=
  {| tag := "a";
     classes := if open then {["mobile-nav-btn"; "open"]} else {["mobile-nav-btn"]};
     display := block |}.

Definition nav (d : Display) : Element :=
  {| tag := "nav"; classes := ∅; display := d |}.

Definition page (w : Z) (open : bool) (d : Display) : Browser :=
  {| width := w; document := [btn open; nav d] |}.

(** ** What each handler does to a single node *)

Definition flip_display (d : Display) : Display :=
  match d with block => none | none => block end.

(** The display the resize handler assigns at a width. *)
Definition forced_display (w : Z) : Display :=
  if (992 <=? w)%Z then block else none.

Definition click_node (this i : nat) (e : Element) : Element :=
  let e1 := if by_tag "nav" i e then fadeToggle e else e in
  if this_node this i e1 then toggleClass "open" e1 else e1.

Definition resize_node (w : Z) (i : nat) (e : Element) : Element :=
  match resize_branch w with
  | Wide =>
      let e1 := if by_tag "nav" i e then css_display block e else e in
      if by_class "mobile-nav-btn" i e1 then removeClass "open" e1 else e1
  | Narrow => if by_tag "nav" i e then css_display none e else e
  | Neither => e
  end.

(** ** Derived notions used by the statements *)

(** The state after [k] clicks on a bound toggle, from the closed state. *)
Definition after_clicks (this k : nat) (b : Browser) : Prop :=
  if Nat.odd k then panel_displayed b ∧ open_at this b = true
  else panel_hidden b ∧ open_at this b = false.

(** No element matches [.mobile-nav-btn] / no element matches [nav]. *)
Definition toggle_missing (b : Browser) : Prop :=
  Forall (λ e, "mobile-nav-btn" ∉ classes e) (document b).

Definition nav_missing (b : Browser) : Prop :=
  Forall (λ e, tag e ≠ "nav") (document b).



(** A page with two toggle controls, a heading and the navigation panel. *)
Definition two_toggle_page (w : Z) : Browser :=
  {| width := w;
     document := [btn false; btn false;
                  {| tag := "h1"; classes := {["title"]}; display := block |};
                  nav none] |}.

(** What no handler changes on a node: its tag, every class other than
    [open], and its display unless it is a [nav] element. *)
Definition node_frame (e e' : Element) : Prop :=
  tag e' = tag e ∧
  (∀ c, c ≠ "open" → hasClass c e' = hasClass c e) ∧
  (tag e ≠ "nav" → display e' = display e).

(** ** The page with its tree and its running fades

    The states above hold what the script leaves once every fade has come to
    its end, and [Click n] is one stop of a click on its way up the tree.
    Two things of the running page are not in them: a click dispatched to a
    node bubbles through its ancestors, and jQuery calls the handler of
    every [.mobile-nav-btn] on the way; and [fadeToggle] is an animation of
    the element's [fx] queue: a fade-in displays the element when it starts,
    a fade-out sets [display] to [none] only when it ends, and a call made
    while a fade runs waits for it and picks its direction when it starts.
    The definitions below transcribe the same two handlers over nodes that
    carry their parent and their queue. *)

Inductive Fade := FadeIn | FadeOut.

(** A node of the tree: the element, the position of its parent, and its
    [fx] queue: the running fade with the number of [fadeToggle] calls
    waiting behind it. *)
Record Node := mkNode {
  elem : Element;
  parent : option nat;
  fx : option (Fade * nat)
}.

Record Page := mkPage {
  viewport : Z;
  nodes : list Node
}.

(** A method that only rewrites the element. *)
Definition with_elem (f : Element → Element) (nd : Node) : Node :=
  {| elem := f (elem nd); parent := parent nd; fx := fx nd |}.

(** A fade starts, with [waiting] calls behind it: a hidden element is
    displayed at once and fades in, a displayed one fades out. *)
Definition start_fade (waiting : nat) (nd : Node) : Node :=
  if is_hidden (elem nd)
  then {| elem := css_display block (elem nd); parent := parent nd;
          fx := Some (FadeIn, waiting) |}
  else {| elem := elem nd; parent := parent nd; fx := Some (FadeOut, waiting) |}.

(** [.fadeToggle('fast')] on one node: it starts at once on an empty queue
    and waits otherwise. *)
Definition queue_fade (nd : Node) : Node :=
  match fx nd with
  | None => start_fade 0 nd
  | Some (f, k) => {| elem := elem nd; parent := parent nd; fx := Some (f, S k) |}
  end.

(** The running fade of a node ends: a fade-out hides the element, and the
    next waiting call, if any, starts. *)
Definition finish_fade (nd : Node) : Node :=
  match fx nd with
  | None => nd
  | Some (f, k) =>
      let e := match f with
               | FadeIn => elem nd
               | FadeOut => css_display none (elem nd)
               end in
      match k with
      | O => {| elem := e; parent := parent nd; fx := None |}
      | S k' => start_fade k' {| elem := e; parent := parent nd; fx := None |}
      end
  end.

Definition each_node (sel : jQuery) (f : Node → Node)
    (ns : list Node) : list Node :=
  imap (λ i nd, if sel i (elem nd) then f nd else nd) ns.

(** The click handler, lines 3-7. *)
Definition click_handler (this : nat) (p : Page) : Page :=
  let ns1 := each_node (by_tag "nav") queue_fade (nodes p) in
  let ns2 := each_node (this_node this) (with_elem (toggleClass "open")) ns1 in
  {| viewport := viewport p; nodes := ns2 |}.

(** The resize handler, lines 9-19. *)
Definition resize_handler (p : Page) : Page :=
  if (992 <=? viewport p)%Z then
    let ns1 := each_node (by_tag "nav") (with_elem (css_display block)) (nodes p) in
    let ns2 := each_node (by_class "mobile-nav-btn")
                 (with_elem (removeClass "open")) ns1 in
    {| viewport := viewport p; nodes := ns2 |}
  else if (viewport p <=? 991)%Z then
    let ns1 := each_node (by_tag "nav") (with_elem (css_display none)) (nodes p) in
    {| viewport := viewport p; nodes := ns1 |}
  else p.

(** The nodes a click dispatched to [n] passes: [n], its parent, and so on
    up to the root.  A tree of [fuel] nodes has no longer path. *)
Fixpoint ancestors (ns : list Node) (fuel n : nat) : list nat :=
  match fuel with
  | O => []
  | S fuel' =>
      n :: match ns !! n ≫= parent with
           | Some m => ancestors ns fuel' m
           | None => []
           end
  end.

Definition propagation (p : Page) (n : nat) : list nat :=
  ancestors (nodes p) (length (nodes p)) n.

(** What the click handler, run with [this], does to node [i]. *)
Definition click_live_node (this i : nat) (nd : Node) : Node :=
  let nd1 := if by_tag "nav" i (elem nd) then queue_fade nd else nd in
  if this_node this i (elem nd1) then with_elem (toggleClass "open") nd1 else nd1.

(** The click handler is bound to node [m]. *)
Definition has_handler (m : nat) (p : Page) : bool :=
  match nodes p !! m with
  | Some nd => by_class "mobile-nav-btn" m (elem nd)
  | None => false
  end.

(** The click arrives at node [m]. *)
Definition deliver (m : nat) (p : Page) : Page :=
  if has_handler m p then click_handler m p else p.

Inductive LiveEvent :=
  | ClickOn (n : nat)     (* a click dispatched to node [n] *)
  | ResizeTo (w : Z)      (* the window is resized to width [w] *)
  | FadeEnd (i : nat).    (* the running fade of node [i] ends *)

Definition react (ev : LiveEvent) (p : Page) : Page :=
  match ev with
  | ClickOn n => foldl (λ s m, deliver m s) p (propagation p n)
  | ResizeTo w => resize_handler {| viewport := w; nodes := nodes p |}
  | FadeEnd i => {| viewport := viewport p; nodes := alter finish_fade i (nodes p) |}
  end.

Definition play (evs : list LiveEvent) (p : Page) : Page :=
  foldl (λ s ev, react ev s) p evs.

(** What is on the screen now. *)
Definition shown_now (p : Page) : Browser :=
  {| width := viewport p; document := elem <$> nodes p |}.

(** The element a node ends as once its queue has run empty: a fade-in
    leaves the display it finds, a fade-out leaves [none], and every waiting
    call flips the display once more. *)
Definition settled (nd : Node) : Element :=
  match fx nd with
  | None => elem nd
  | Some (FadeIn, k) =>
      css_display (Nat.iter k flip_display (display (elem nd))) (elem nd)
  | Some (FadeOut, k) =>
      css_display (Nat.iter k flip_display none) (elem nd)
  end.

Definition settled_page (p : Page) : Browser :=
  {| width := viewport p; document := settled <$> nodes p |}.

(** No fade runs on the node. *)
Definition idle (nd : Node) : Prop := fx nd = None.

(** No fade of the node will change its display any more: none runs, or a
    fade-in runs with no call waiting. *)
Definition calm (nd : Node) : Prop :=
  fx nd = None ∨ fx nd = Some (FadeIn, O).

Definition all_idle (p : Page) : Prop := Forall idle (nodes p).
Definition all_calm (p : Page) : Prop := Forall calm (nodes p).

(** A click dispatched to [n] arrives at some node with the handler. *)
Definition reaches_toggle (p : Page) (n : nat) : bool :=
  existsb (λ m, has_handler m p) (propagation p n).


(** The events of the states above that an event of the page amounts to:
    one stop per node of the propagation path for a click, none for the end
    of a fade. *)
Definition stops (p : Page) (ev : LiveEvent) : list Event :=
  match ev with
  | ClickOn n => Click <$> propagation p n
  | ResizeTo w => [Resize w]
  | FadeEnd _ => []
  end.

(** What no event changes on a node of the page. *)
Definition live_frame (nd nd' : Node) : Prop :=
  parent nd' = parent nd ∧
  tag (elem nd') = tag (elem nd) ∧
  (∀ c, c ≠ "open" → hasClass c (elem nd') = hasClass c (elem nd)) ∧
  ("mobile-nav-btn" ∉ classes (elem nd) → classes (elem nd') = classes (elem nd)) ∧
  (tag (elem nd) ≠ "nav" → fx nd = None →
     fx nd' = None ∧ display (elem nd') = display (elem nd)).

(** A page in its tree: the toggle holds an icon, the panel a link. *)
Definition live_page (w : Z) (open : bool) (d : Display) : Page :=
  {| viewport := w;
     nodes := [ {| elem := {| tag := "body"; classes := ∅; display := block |};
                   parent := None; fx := None |};
                {| elem := btn open; parent := Some 0%nat; fx := None |};
                {| elem := {| tag := "span"; classes := {["icon"]}; display := block |};
                   parent := Some 1%nat; fx := None |};
                {| elem := nav d; parent := Some 0%nat; fx := None |};
                {| elem := {| tag := "a"; classes := ∅; display := block |};
                   parent := Some 3%nat; fx := None |} ] |}.

(** * Properties of the handlers *)

Lemma each_lookup sel f doc i :
  each sel f doc !! i = (λ e, if sel i e then f e else e) <$> doc !! i.
Proof. unfold each. by rewrite list_lookup_imap. Qed.

Lemma on_click_lookup this b i :
  document (on_click this b) !! i = click_node this i <$> document b !! i.
Proof.
  unfold on_click; simpl. rewrite !each_lookup.
  by destruct (document b !! i).
Qed.

Lemma on_resize_branch b :
  on_resize b =
  match resize_branch (width b) with
  | Wide => wide_branch b
  | Narrow => narrow_branch b
  | Neither => b
  end.
Proof.
  unfold on_resize, resize_branch.
  destruct (992 <=? width b)%Z; [done|]. by destruct (width b <=? 991)%Z.
Qed.

Lemma on_resize_lookup b i :
  document (on_resize b) !! i = resize_node (width b) i <$> document b !! i.
Proof.
  rewrite on_resize_branch. unfold resize_node, wide_branch, narrow_branch.
  destruct (resize_branch (width b)); simpl; rewrite ?each_lookup;
    by destruct (document b !! i).
Qed.

Lemma on_resize_width b : width (on_resize b) = width b.
Proof.
  rewrite on_resize_branch. by destruct (resize_branch (width b)).
Qed.

Lemma resize_branch_wide w : (992 ≤ w)%Z → resize_branch w = Wide.
Proof. intros H. unfold resize_branch. by rewrite (proj2 (Z.leb_le 992 w)). Qed.

Lemma resize_branch_narrow w : (w ≤ 991)%Z → resize_branch w = Narrow.
Proof.
  intros H. unfold resize_branch.
  destruct (Z.leb_spec 992 w); [lia|]. by rewrite (proj2 (Z.leb_le w 991)).
Qed.

Lemma resize_branch_total w : resize_branch w ≠ Neither.
Proof.
  destruct (Z.le_gt_cases 992 w).
  - by rewrite resize_branch_wide.
  - rewrite resize_branch_narrow; [done | lia].
Qed.

(** Node-level facts, by cases on the selectors. *)
Ltac node_cases :=
  repeat match goal with e : Element |- _ => destruct e as [? ? []] end;
  unfold click_node, resize_node, by_tag, by_class, this_node, toggleClass,
    fadeToggle, hasClass, removeClass, addClass, css_display, is_hidden,
    flip_display in *;
  simpl in *;
  repeat (case_bool_decide; simpl in *);
  simplify_eq/=; try done.

Lemma resize_node_tag w i e : tag (resize_node w i e) = tag e.
Proof. unfold resize_node. destruct (resize_branch w); node_cases. Qed.

Lemma resize_node_is_toggle w i e :
  "mobile-nav-btn" ∈ classes (resize_node w i e) ↔ "mobile-nav-btn" ∈ classes e.
Proof.
  unfold resize_node. destruct (resize_branch w); node_cases; set_solver.
Qed.

Lemma resize_node_wide_display w i e :
  (992 ≤ w)%Z → tag e = "nav" → display (resize_node w i e) = block.
Proof.
  intros Hw Ht. unfold resize_node. rewrite resize_branch_wide; [|done].
  node_cases.
Qed.

Lemma resize_node_wide_indicator w i e :
  (992 ≤ w)%Z → "mobile-nav-btn" ∈ classes e →
  "open" ∉ classes (resize_node w i e).
Proof.
  intros Hw Ht. unfold resize_node. rewrite resize_branch_wide; [|done].
  node_cases; set_solver.
Qed.

Lemma resize_node_narrow_display w i e :
  (w ≤ 991)%Z → tag e = "nav" → display (resize_node w i e) = none.
Proof.
  intros Hw Ht. unfold resize_node. rewrite resize_branch_narrow; [|done].
  node_cases.
Qed.

Lemma resize_node_narrow_classes w i e :
  (w ≤ 991)%Z → classes (resize_node w i e) = classes e.
Proof.
  intros Hw. unfold resize_node. rewrite resize_branch_narrow; [|done].
  node_cases.
Qed.

Lemma resize_node_other_display w i e :
  tag e ≠ "nav" → display (resize_node w i e) = display e.
Proof. intros Ht. unfold resize_node. destruct (resize_branch w); node_cases. Qed.

Lemma resize_node_forced w i e :
  tag e = "nav" → display (resize_node w i e) = forced_display w.
Proof.
  intros Ht. unfold forced_display. destruct (Z.leb_spec 992 w).
  - by apply resize_node_wide_display.
  - apply resize_node_narrow_display; [lia | done].
Qed.

Lemma resize_node_idemp w i e :
  resize_node w i (resize_node w i e) = resize_node w i e.
Proof.
  unfold resize_node. destruct (resize_branch w); node_cases;
    try (f_equal; set_solver); set_solver.
Qed.

Lemma add_removed_class (cs : gset string) (c : string) :
  c ∈ cs → cs ∖ {[c]} ∪ {[c]} = cs.
Proof.
  intros Hc. apply set_eq. intros x.
  destruct (decide (x = c)); set_solver.
Qed.

Lemma remove_added_class (cs : gset string) (c : string) :
  c ∉ cs → (cs ∪ {[c]}) ∖ {[c]} = cs.
Proof. set_solver. Qed.

Lemma click_node_tag this i e : tag (click_node this i e) = tag e.
Proof. node_cases. Qed.

Lemma click_node_is_toggle this i e :
  "mobile-nav-btn" ∈ classes (click_node this i e) ↔ "mobile-nav-btn" ∈ classes e.
Proof. node_cases; set_solver. Qed.

Lemma click_node_nav_display this i e :
  tag e = "nav" → display (click_node this i e) = flip_display (display e).
Proof. intros Ht. node_cases. Qed.

Lemma click_node_other_display this i e :
  tag e ≠ "nav" → display (click_node this i e) = display e.
Proof. intros Ht. node_cases. Qed.

Lemma click_node_this_open this e :
  hasClass "open" (click_node this this e) = negb (hasClass "open" e).
Proof. node_cases; set_solver. Qed.

Lemma click_node_other_classes this i e :
  i ≠ this → classes (click_node this i e) = classes e.
Proof. intros Hi. node_cases. Qed.

Lemma click_node_involutive this i e :
  click_node this i (click_node this i e) = e.
Proof.
  node_cases; f_equal;
    first [ by apply add_removed_class | by apply remove_added_class
          | set_solver ].
Qed.

(** ** The handlers on whole states *)

Lemma Browser_eq b1 b2 :
  width b1 = width b2 →
  (∀ i, document b1 !! i = document b2 !! i) →
  b1 = b2.
Proof.
  destruct b1, b2; simpl. intros -> Hdoc. f_equal. by apply list_eq.
Qed.

Lemma step_resize_lookup w b i :
  document (step (Resize w) b) !! i = resize_node w i <$> document b !! i.
Proof. simpl. by rewrite on_resize_lookup. Qed.

Lemma step_resize_width w b : width (step (Resize w) b) = w.
Proof. simpl. by rewrite on_resize_width. Qed.

Lemma step_click_lookup n b i :
  bound n b = true →
  document (step (Click n) b) !! i = click_node n i <$> document b !! i.
Proof. intros Hb. simpl. rewrite Hb. apply on_click_lookup. Qed.

Lemma step_click_width n b : width (step (Click n) b) = width b.
Proof. simpl. by destruct (bound n b). Qed.

(** The handlers never touch the class the click handler was bound by, so
    the nodes carrying the handler stay the same. *)
Lemma bound_on_click this n b : bound n (on_click this b) = bound n b.
Proof.
  unfold bound. rewrite on_click_lookup.
  destruct (document b !! n) as [e|]; simpl; [|done].
  unfold by_class. apply bool_decide_ext, click_node_is_toggle.
Qed.

Lemma bound_step ev n b : bound n (step ev b) = bound n b.
Proof.
  destruct ev as [m|w].
  - simpl. destruct (bound m b); [apply bound_on_click | done].
  - unfold bound. rewrite step_resize_lookup.
    destruct (document b !! n) as [e|]; simpl; [|done].
    unfold by_class. apply bool_decide_ext, resize_node_is_toggle.
Qed.

Lemma step_click_involutive n b : step (Click n) (step (Click n) b) = b.
Proof.
  destruct (bound n b) eqn:Hb.
  - apply Browser_eq.
    + by rewrite !step_click_width.
    + intros i. rewrite !step_click_lookup; [|done|by rewrite bound_step].
      destruct (document b !! i) as [e|]; simpl; [|done].
      by rewrite click_node_involutive.
  - simpl. rewrite Hb. simpl. by rewrite Hb.
Qed.

Lemma step_resize_idemp w b :
  step (Resize w) (step (Resize w) b) = step (Resize w) b.
Proof.
  apply Browser_eq.
  - by rewrite !step_resize_width.
  - intros i. rewrite !step_resize_lookup.
    destruct (document b !! i) as [e|]; simpl; [|done].
    by rewrite resize_node_idemp.
Qed.

Lemma on_resize_idemp b : on_resize (on_resize b) = on_resize b.
Proof.
  apply Browser_eq.
  - by rewrite !on_resize_width.
  - intros i. rewrite !on_resize_lookup, on_resize_width.
    destruct (document b !! i) as [e|]; simpl; [|done].
    by rewrite resize_node_idemp.
Qed.

Lemma run_snoc evs ev b : run (evs ++ [ev]) b = step ev (run evs b).
Proof. unfold run. by rewrite foldl_snoc. Qed.

Lemma step_tags ev b : tag <$> document (step ev b) = tag <$> document b.
Proof.
  apply list_eq; intros i. rewrite !list_lookup_fmap.
  destruct ev as [n|w].
  - destruct (bound n b) eqn:Hb.
    + rewrite step_click_lookup; [|done].
      destruct (document b !! i); simpl; [|done]. by rewrite click_node_tag.
    + simpl. by rewrite Hb.
  - rewrite step_resize_lookup.
    destruct (document b !! i); simpl; [|done]. by rewrite resize_node_tag.
Qed.

Lemma run_tags evs b : tag <$> document (run evs b) = tag <$> document b.
Proof.
  induction evs as [|ev evs IH] using rev_ind; [done|].
  by rewrite run_snoc, step_tags.
Qed.

(** After a resize the panels are as the width alone says. *)
Lemma resize_panel_displayed w b :
  (992 ≤ w)%Z → panel_displayed (step (Resize w) b).
Proof.
  intros Hw. apply Forall_lookup. intros i e'.
  rewrite step_resize_lookup. intros He' Ht.
  destruct (document b !! i) as [e|]; simplify_eq/=.
  rewrite resize_node_tag in Ht. by apply resize_node_wide_display.
Qed.

Lemma resize_indicator_absent w b :
  (992 ≤ w)%Z → indicator_absent (step (Resize w) b).
Proof.
  intros Hw. apply Forall_lookup. intros i e'.
  rewrite step_resize_lookup. intros He' Ht.
  destruct (document b !! i) as [e|]; simplify_eq/=.
  apply resize_node_is_toggle in Ht. by apply resize_node_wide_indicator.
Qed.

Lemma resize_panel_hidden w b :
  (w ≤ 991)%Z → panel_hidden (step (Resize w) b).
Proof.
  intros Hw. apply Forall_lookup. intros i e'.
  rewrite step_resize_lookup. intros He' Ht.
  destruct (document b !! i) as [e|]; simplify_eq/=.
  rewrite resize_node_tag in Ht. by apply resize_node_narrow_display.
Qed.

Lemma resize_narrow_classes w b :
  (w ≤ 991)%Z →
  classes <$> document (step (Resize w) b) = classes <$> document b.
Proof.
  intros Hw. apply list_eq; intros i.
  rewrite !list_lookup_fmap, step_resize_lookup.
  destruct (document b !! i) as [e|]; simpl; [|done].
  by rewrite resize_node_narrow_classes.
Qed.

Lemma resize_narrow_open_at w n b :
  (w ≤ 991)%Z → open_at n (step (Resize w) b) = open_at n b.
Proof.
  intros Hw. unfold open_at. rewrite step_resize_lookup.
  destruct (document b !! n) as [e|]; simpl; [|done].
  unfold hasClass. by rewrite resize_node_narrow_classes.
Qed.

(** *** The displays of the navigation panels *)

Lemma nav_displays_imap (f : nat → Element → Element) (g : Display → Display)
    (doc : list Element) :
  (∀ i e, tag (f i e) = tag e) →
  (∀ i e, tag e = "nav" → display (f i e) = g (display e)) →
  display <$> filter (λ e, tag e = "nav") (imap f doc)
  = g <$> (display <$> filter (λ e, tag e = "nav") doc).
Proof.
  revert f. induction doc as [|e doc IH]; intros f Htag Hdisp; [done|].
  rewrite imap_cons, !filter_cons, Htag.
  destruct (decide (tag e = "nav")) as [Ht|Ht]; simpl.
  - rewrite Hdisp by done. f_equal. apply IH; intros; [apply Htag|by apply Hdisp].
  - apply IH; intros; [apply Htag|by apply Hdisp].
Qed.

Lemma on_click_imap this b :
  document (on_click this b) = imap (click_node this) (document b).
Proof.
  apply list_eq. intros i. by rewrite on_click_lookup, list_lookup_imap.
Qed.

Lemma step_resize_imap w b :
  document (step (Resize w) b) = imap (resize_node w) (document b).
Proof.
  apply list_eq. intros i. by rewrite step_resize_lookup, list_lookup_imap.
Qed.

Lemma nav_displays_click n b :
  bound n b = true →
  nav_displays (step (Click n) b) = flip_display <$> nav_displays b.
Proof.
  intros Hb. unfold nav_displays. simpl. rewrite Hb, on_click_imap.
  apply nav_displays_imap.
  - intros. apply click_node_tag.
  - intros. by apply click_node_nav_display.
Qed.

Lemma nav_displays_resize w b :
  nav_displays (step (Resize w) b) = (λ _, forced_display w) <$> nav_displays b.
Proof.
  unfold nav_displays. rewrite step_resize_imap.
  apply (nav_displays_imap _ (λ _, forced_display w)).
  - intros. apply resize_node_tag.
  - intros. by apply resize_node_forced.
Qed.

Lemma nav_displays_length b :
  length (nav_displays b) = length (filter (λ t, t = "nav") (tag <$> document b)).
Proof.
  unfold nav_displays. rewrite length_fmap.
  induction (document b) as [|e doc IH]; [done|].
  rewrite fmap_cons, !filter_cons.
  destruct (decide (tag e = "nav")); simpl; by rewrite IH.
Qed.

Lemma nav_displays_length_run evs b :
  length (nav_displays (run evs b)) = length (nav_displays b).
Proof. by rewrite !nav_displays_length, run_tags. Qed.

Lemma const_fmap_length {A B} (d : B) (l1 l2 : list A) :
  length l1 = length l2 → (λ _, d) <$> l1 = (λ _, d) <$> l2.
Proof.
  revert l2. induction l1 as [|x l1 IH]; intros [|y l2] Hlen;
    simplify_eq/=; [done|]. f_equal. by apply IH.
Qed.

(** *** Clicks open and close the panel *)

Lemma open_at_click n b :
  bound n b = true → open_at n (step (Click n) b) = negb (open_at n b).
Proof.
  intros Hb. unfold open_at. rewrite step_click_lookup by done.
  unfold bound in Hb. destruct (document b !! n) as [e|]; simpl; [|done].
  apply click_node_this_open.
Qed.

Lemma click_shows_hidden_panel n b :
  bound n b = true → panel_hidden b → panel_displayed (step (Click n) b).
Proof.
  intros Hb Hh. apply Forall_lookup. intros i e'.
  rewrite step_click_lookup by done. intros He' Ht.
  destruct (document b !! i) as [e|] eqn:He; simplify_eq/=.
  rewrite click_node_tag in Ht. rewrite click_node_nav_display by done.
  unfold panel_hidden in Hh. rewrite Forall_lookup in Hh.
  by rewrite (Hh i e He Ht).
Qed.

Lemma click_hides_displayed_panel n b :
  bound n b = true → panel_displayed b → panel_hidden (step (Click n) b).
Proof.
  intros Hb Hh. apply Forall_lookup. intros i e'.
  rewrite step_click_lookup by done. intros He' Ht.
  destruct (document b !! i) as [e|] eqn:He; simplify_eq/=.
  rewrite click_node_tag in Ht. rewrite click_node_nav_display by done.
  unfold panel_displayed in Hh. rewrite Forall_lookup in Hh.
  by rewrite (Hh i e He Ht).
Qed.

Lemma after_clicks_step this k b :
  bound this b = true →
  after_clicks this k b → after_clicks this (S k) (step (Click this) b).
Proof.
  intros Hb. unfold after_clicks. rewrite Nat.odd_succ, <- Nat.negb_odd.
  destruct (Nat.odd k); cbn [negb]; intros [Hp Ho]; split.
  - by apply click_hides_displayed_panel.
  - by rewrite open_at_click, Ho.
  - by apply click_shows_hidden_panel.
  - by rewrite open_at_click, Ho.
Qed.

Lemma bound_run evs n b : bound n (run evs b) = bound n b.
Proof.
  induction evs as [|ev evs IH] using rev_ind; [done|].
  by rewrite run_snoc, bound_step.
Qed.

Lemma run_clicks_width this k b :
  width (run (replicate k (Click this)) b) = width b.
Proof.
  induction k as [|k IH]; [done|].
  by rewrite replicate_S_end, run_snoc, step_click_width.
Qed.

Lemma run_clicks_after this k b :
  bound this b = true → panel_hidden b → open_at this b = false →
  after_clicks this k (run (replicate k (Click this)) b).
Proof.
  intros Hb Hh Ho. induction k as [|k IH]; [done|].
  rewrite replicate_S_end, run_snoc.
  apply after_clicks_step; [by rewrite bound_run | done].
Qed.

(** *** Clicks that reach no handler *)

Lemma step_unhandled n b : bound n b = false → step (Click n) b = b.
Proof. intros Hb. simpl. by rewrite Hb. Qed.

(** *** Missing elements *)

Lemma resize_node_no_toggle_classes w i e :
  "mobile-nav-btn" ∉ classes e → classes (resize_node w i e) = classes e.
Proof. intros Hc. unfold resize_node. destruct (resize_branch w); node_cases. Qed.




Lemma toggle_missing_resize_classes b :
  toggle_missing b →
  classes <$> document (on_resize b) = classes <$> document b.
Proof.
  unfold toggle_missing. rewrite Forall_lookup. intros Hm.
  apply list_eq; intros i. rewrite !list_lookup_fmap, on_resize_lookup.
  destruct (document b !! i) as [e|] eqn:He; simpl; [|done].
  rewrite resize_node_no_toggle_classes; [done | by apply (Hm i)].
Qed.

Lemma nav_missing_click_display n b :
  nav_missing b →
  display <$> document (step (Click n) b) = display <$> document b.
Proof.
  unfold nav_missing. rewrite Forall_lookup. intros Hm.
  destruct (bound n b) eqn:Hb; [|simpl; by rewrite Hb].
  apply list_eq; intros i. rewrite !list_lookup_fmap, step_click_lookup by done.
  destruct (document b !! i) as [e|] eqn:He; simpl; [|done].
  rewrite click_node_other_display; [done | by apply (Hm i)].
Qed.

Lemma nav_missing_resize_display b :
  nav_missing b →
  display <$> document (on_resize b) = display <$> document b.
Proof.
  unfold nav_missing. rewrite Forall_lookup. intros Hm.
  apply list_eq; intros i. rewrite !list_lookup_fmap, on_resize_lookup.
  destruct (document b !! i) as [e|] eqn:He; simpl; [|done].
  rewrite resize_node_other_display; [done | by apply (Hm i)].
Qed.


(** ** Frames and compositions *)

Lemma node_frame_refl e : node_frame e e.
Proof. by repeat split. Qed.

Lemma node_frame_trans e1 e2 e3 :
  node_frame e1 e2 → node_frame e2 e3 → node_frame e1 e3.
Proof.
  intros (Ht1 & Hc1 & Hd1) (Ht2 & Hc2 & Hd2). repeat split.
  - by rewrite Ht2.
  - intros c Hc. by rewrite Hc2, Hc1.
  - intros Ht. rewrite Hd2, Hd1; [done..|by rewrite Ht1].
Qed.

Lemma click_node_frame this i e : node_frame e (click_node this i e).
Proof.
  repeat split.
  - apply click_node_tag.
  - intros c Hc. node_cases; exfalso; set_solver.
  - apply click_node_other_display.
Qed.

Lemma resize_node_frame w i e : node_frame e (resize_node w i e).
Proof.
  repeat split.
  - apply resize_node_tag.
  - intros c Hc. unfold resize_node.
    destruct (resize_branch w); node_cases; exfalso; set_solver.
  - apply resize_node_other_display.
Qed.

Lemma step_frame ev b i e :
  document b !! i = Some e →
  ∃ e', document (step ev b) !! i = Some e' ∧ node_frame e e'.
Proof.
  intros He. destruct ev as [n|w].
  - destruct (bound n b) eqn:Hb.
    + exists (click_node n i e). rewrite step_click_lookup, He by done.
      split; [done | apply click_node_frame].
    + exists e. rewrite step_unhandled by done. split; [done | apply node_frame_refl].
  - exists (resize_node w i e). rewrite step_resize_lookup, He.
    split; [done | apply resize_node_frame].
Qed.

Lemma run_frame evs b i e :
  document b !! i = Some e →
  ∃ e', document (run evs b) !! i = Some e' ∧ node_frame e e'.
Proof.
  intros He. induction evs as [|ev evs IH] using rev_ind.
  - exists e. split; [done | apply node_frame_refl].
  - destruct IH as (e1 & He1 & Hf1). rewrite run_snoc.
    destruct (step_frame ev _ _ _ He1) as (e2 & He2 & Hf2).
    exists e2. split; [done | by eapply node_frame_trans].
Qed.

Lemma run_length evs b : length (document (run evs b)) = length (document b).
Proof.
  rewrite <- (length_fmap tag (document (run evs b))), run_tags.
  apply length_fmap.
Qed.

Lemma click_node_comm n m i e :
  click_node n i (click_node m i e) = click_node m i (click_node n i e).
Proof. node_cases; f_equal; set_solver. Qed.

Lemma resize_node_absorbs w1 w2 i e :
  (w1 ≤ 991)%Z ∨ (992 ≤ w2)%Z →
  resize_node w2 i (resize_node w1 i e) = resize_node w2 i e.
Proof.
  intros Hw. unfold resize_node.
  destruct (Z.le_gt_cases 992 w1) as [H1|H1];
    destruct (Z.le_gt_cases 992 w2) as [H2|H2];
    rewrite ?(resize_branch_wide w1), ?(resize_branch_wide w2),
      ?(resize_branch_narrow w1), ?(resize_branch_narrow w2) by lia;
    try lia;
    node_cases; try (f_equal; set_solver); set_solver.
Qed.

Lemma open_at_click_other n m b :
  n ≠ m → open_at n (step (Click m) b) = open_at n b.
Proof.
  intros Hne. destruct (bound m b) eqn:Hb; [|by rewrite step_unhandled].
  unfold open_at. rewrite step_click_lookup by done.
  destruct (document b !! n) as [e|]; simpl; [|done].
  unfold hasClass. by rewrite click_node_other_classes.
Qed.

Lemma flip_display_involutive d : flip_display (flip_display d) = d.
Proof. by destruct d. Qed.

Lemma run_clicks_stale this k b :
  bound this b = true → panel_hidden b → open_at this b = true →
  if Nat.odd k
  then panel_displayed (run (replicate k (Click this)) b) ∧
       open_at this (run (replicate k (Click this)) b) = false
  else panel_hidden (run (replicate k (Click this)) b) ∧
       open_at this (run (replicate k (Click this)) b) = true.
Proof.
  intros Hb Hh Ho. induction k as [|k IH]; [done|].
  rewrite replicate_S_end, run_snoc, Nat.odd_succ, <- Nat.negb_odd.
  assert (bound this (run (replicate k (Click this)) b) = true) as Hb'
    by (by rewrite bound_run).
  destruct (Nat.odd k); cbn [negb]; destruct IH as [Hp Hi]; split.
  - by apply click_hides_displayed_panel.
  - by rewrite open_at_click, Hi.
  - by apply click_shows_hidden_panel.
  - by rewrite open_at_click, Hi.
Qed.

Lemma resize_narrow_indicator_absent w b :
  (w ≤ 991)%Z → indicator_absent b → indicator_absent (step (Resize w) b).
Proof.
  intros Hw Hb. unfold indicator_absent in *. rewrite Forall_lookup in Hb.
  apply Forall_lookup. intros i e'. rewrite step_resize_lookup.
  destruct (document b !! i) as [e|] eqn:He; intros He'; simplify_eq/=.
  rewrite resize_node_narrow_classes by done. by apply (Hb i).
Qed.

(** *** The document after a resize, node by node *)

Lemma fmap_lookup_lift {A} (proj : Element → A) (g : nat → Element → Element)
    (h : Element → A) (doc doc' : list Element) :
  (∀ i, doc' !! i = g i <$> doc !! i) →
  (∀ i e, doc !! i = Some e → proj (g i e) = h e) →
  proj <$> doc' = h <$> doc.
Proof.
  intros Hl Hp. apply list_eq. intros i. rewrite !list_lookup_fmap, Hl.
  destruct (doc !! i) as [e|] eqn:He; simpl; [|done]. by rewrite (Hp i e He).
Qed.

Lemma resize_node_wide_classes w i e :
  (992 ≤ w)%Z →
  classes (resize_node w i e)
  = if decide ("mobile-nav-btn" ∈ classes e)
    then classes e ∖ {["open"]} else classes e.
Proof.
  intros Hw. unfold resize_node. rewrite resize_branch_wide by done.
  destruct (decide ("mobile-nav-btn" ∈ classes e)); node_cases.
Qed.

Lemma resize_node_display w i e :
  display (resize_node w i e)
  = if decide (tag e = "nav") then forced_display w else display e.
Proof.
  destruct (decide (tag e = "nav")).
  - by apply resize_node_forced.
  - by apply resize_node_other_display.
Qed.

Lemma forced_display_wide w : (992 ≤ w)%Z → forced_display w = block.
Proof. intros Hw. unfold forced_display. by rewrite (proj2 (Z.leb_le 992 w)). Qed.

Lemma forced_display_narrow w : (w ≤ 991)%Z → forced_display w = none.
Proof.
  intros Hw. unfold forced_display. destruct (Z.leb_spec 992 w); [lia | done].
Qed.

Lemma resize_displays w b :
  display <$> document (step (Resize w) b)
  = (λ e, if decide (tag e = "nav") then forced_display w else display e)
      <$> document b.
Proof.
  apply (fmap_lookup_lift display (resize_node w)).
  - apply step_resize_lookup.
  - intros. apply resize_node_display.
Qed.

Lemma resize_wide_classes w b :
  (992 ≤ w)%Z →
  classes <$> document (step (Resize w) b)
  = (λ e, if decide ("mobile-nav-btn" ∈ classes e)
          then classes e ∖ {["open"]} else classes e) <$> document b.
Proof.
  intros Hw. apply (fmap_lookup_lift classes (resize_node w)).
  - apply step_resize_lookup.
  - intros. by apply resize_node_wide_classes.
Qed.

Lemma click_then_resize_displays w n b :
  display <$> document (step (Resize w) (step (Click n) b))
  = (λ e, if decide (tag e = "nav") then forced_display w else display e)
      <$> document b.
Proof.
  rewrite resize_displays. apply list_eq. intros i. rewrite !list_lookup_fmap.
  destruct (bound n b) eqn:Hb; [|by rewrite step_unhandled].
  rewrite step_click_lookup by done.
  destruct (document b !! i) as [e|]; simpl; [|done].
  rewrite click_node_tag. destruct (decide (tag e = "nav")); [done|].
  by rewrite click_node_other_display.
Qed.

(** *** The handlers when an element is missing, node by node *)







(** * The page with its tree and its fades *)

Lemma play_snoc evs ev p : play (evs ++ [ev]) p = react ev (play evs p).
Proof. unfold play. by rewrite foldl_snoc. Qed.

Lemma play_app evs1 evs2 p : play (evs1 ++ evs2) p = play evs2 (play evs1 p).
Proof. unfold play. by rewrite foldl_app. Qed.

Lemma Page_eq p1 p2 :
  viewport p1 = viewport p2 →
  (∀ i, nodes p1 !! i = nodes p2 !! i) →
  p1 = p2.
Proof.
  destruct p1, p2; simpl. intros -> Hn. f_equal. by apply list_eq.
Qed.

Lemma each_node_lookup sel f ns i :
  each_node sel f ns !! i = (λ nd, if sel i (elem nd) then f nd else nd) <$> ns !! i.
Proof. unfold each_node. by rewrite list_lookup_imap. Qed.

Lemma click_handler_lookup this p i :
  nodes (click_handler this p) !! i = click_live_node this i <$> nodes p !! i.
Proof.
  unfold click_handler; simpl. rewrite !each_node_lookup.
  by destruct (nodes p !! i).
Qed.

Lemma resize_handler_lookup p i :
  nodes (resize_handler p) !! i
  = with_elem (resize_node (viewport p) i) <$> nodes p !! i.
Proof.
  unfold resize_handler, resize_node, resize_branch.
  destruct (992 <=? viewport p)%Z; simpl.
  - rewrite !each_node_lookup. destruct (nodes p !! i) as [nd|]; simpl; [|done].
    f_equal. destruct nd as [e par f]. unfold by_tag, by_class, with_elem; simpl.
    by repeat (case_bool_decide; simpl in *).
  - destruct (viewport p <=? 991)%Z; simpl.
    + rewrite each_node_lookup. destruct (nodes p !! i) as [nd|]; simpl; [|done].
      f_equal. destruct nd as [e par f]. unfold by_tag, with_elem; simpl.
      by case_bool_decide.
    + destruct (nodes p !! i) as [[]|]; done.
Qed.

Lemma resize_handler_viewport p : viewport (resize_handler p) = viewport p.
Proof.
  unfold resize_handler. destruct (992 <=? viewport p)%Z; [done|].
  by destruct (viewport p <=? 991)%Z.
Qed.

Lemma react_resize_lookup w p i :
  nodes (react (ResizeTo w) p) !! i = with_elem (resize_node w i) <$> nodes p !! i.
Proof. simpl. by rewrite resize_handler_lookup. Qed.

Lemma react_resize_viewport w p : viewport (react (ResizeTo w) p) = w.
Proof. simpl. by rewrite resize_handler_viewport. Qed.

Lemma react_fade_end_lookup i p j :
  nodes (react (FadeEnd i) p) !! j
  = (if decide (i = j) then finish_fade else id) <$> nodes p !! j.
Proof.
  simpl. destruct (decide (i = j)) as [->|Hne].
  - by rewrite list_lookup_alter_eq.
  - rewrite list_lookup_alter_ne by done. by destruct (nodes p !! j).
Qed.


(** *** What no event changes *)

Ltac live_cases :=
  repeat match goal with nd : Node |- _ => destruct nd as [[? ? []] ? [[[] ?]|]] end;
  unfold live_frame, click_live_node, with_elem, queue_fade, finish_fade,
    start_fade, settled, calm, idle in *;
  simpl in *.

Lemma live_frame_refl nd : live_frame nd nd.
Proof. by repeat split. Qed.

Lemma live_frame_trans nd1 nd2 nd3 :
  live_frame nd1 nd2 → live_frame nd2 nd3 → live_frame nd1 nd3.
Proof.
  intros (Hp1 & Ht1 & Hc1 & Hn1 & Hd1) (Hp2 & Ht2 & Hc2 & Hn2 & Hd2).
  split; [by rewrite Hp2|]. split; [by rewrite Ht2|].
  split; [intros c Hc; by rewrite Hc2, Hc1|].
  split.
  - intros Hm. rewrite Hn2, Hn1; [done..|]. by rewrite Hn1.
  - intros Ht Hf. destruct (Hd1 Ht Hf) as [Hf2 Hdd].
    destruct (Hd2 ltac:(by rewrite Ht1) Hf2) as [Hf3 Hdd3].
    split; [done | by rewrite Hdd3].
Qed.

Lemma finish_fade_frame nd : live_frame nd (finish_fade nd).
Proof.
  live_cases; repeat split; try done;
    try (destruct n; simpl; done); try (intros; destruct n; simpl; done).
Qed.

Lemma queue_fade_frame nd :
  tag (elem nd) = "nav" → live_frame nd (queue_fade nd).
Proof. intros Ht. live_cases; repeat split; try done. Qed.

Lemma toggle_open_frame nd :
  "mobile-nav-btn" ∈ classes (elem nd) →
  live_frame nd (with_elem (toggleClass "open") nd).
Proof.
  intros Hm. destruct nd as [e par f]. unfold live_frame, with_elem; simpl in *.
  split; [done|]. split; [by node_cases|].
  split; [intros c Hc; node_cases; exfalso; set_solver|].
  split; [intros Hn; by destruct Hn|]. intros _ Hf. split; [done | by node_cases].
Qed.

Lemma click_live_node_frame this i nd :
  (i = this → "mobile-nav-btn" ∈ classes (elem nd)) →
  live_frame nd (click_live_node this i nd).
Proof.
  intros Hm. unfold click_live_node, by_tag, this_node.
  set (nd1 := if bool_decide (tag (elem nd) = "nav") then queue_fade nd else nd).
  assert (live_frame nd nd1 ∧ classes (elem nd1) = classes (elem nd))
    as [Hf Hcl].
  { subst nd1. destruct (bool_decide_reflect (tag (elem nd) = "nav")).
    - split; [by apply queue_fade_frame|]. clear. by live_cases.
    - split; [apply live_frame_refl | done]. }
  destruct (bool_decide_reflect (i = this)) as [Hi|Hi]; [|done].
  eapply live_frame_trans; [done|]. apply toggle_open_frame.
  rewrite Hcl. by apply Hm.
Qed.

Lemma with_resize_node_frame w i nd :
  live_frame nd (with_elem (resize_node w i) nd).
Proof.
  destruct (resize_node_frame w i (elem nd)) as (Ht & Hc & Hd).
  unfold live_frame, with_elem; simpl. repeat split; try done.
  - intros Hm. by apply resize_node_no_toggle_classes.
  - by apply Hd.
Qed.

Lemma deliver_frame m p i nd :
  nodes p !! i = Some nd →
  ∃ nd', nodes (deliver m p) !! i = Some nd' ∧ live_frame nd nd'.
Proof.
  intros Hnd. unfold deliver. destruct (has_handler m p) eqn:Hh.
  - exists (click_live_node m i nd). rewrite click_handler_lookup, Hnd.
    split; [done|]. apply click_live_node_frame. intros ->.
    unfold has_handler in Hh. rewrite Hnd in Hh.
    by apply bool_decide_eq_true in Hh.
  - exists nd. split; [done | apply live_frame_refl].
Qed.

Lemma deliveries_frame ms p i nd :
  nodes p !! i = Some nd →
  ∃ nd', nodes (foldl (λ s m, deliver m s) p ms) !! i = Some nd' ∧
         live_frame nd nd'.
Proof.
  revert p nd. induction ms as [|m ms IH]; intros p nd Hnd; simpl.
  - exists nd. split; [done | apply live_frame_refl].
  - destruct (deliver_frame m p i nd Hnd) as (nd1 & H1 & Hf1).
    destruct (IH _ _ H1) as (nd2 & H2 & Hf2).
    exists nd2. split; [done | by eapply live_frame_trans].
Qed.

Lemma react_frame ev p i nd :
  nodes p !! i = Some nd →
  ∃ nd', nodes (react ev p) !! i = Some nd' ∧ live_frame nd nd'.
Proof.
  intros Hnd. destruct ev as [n|w|j].
  - by apply deliveries_frame.
  - exists (with_elem (resize_node w i) nd). rewrite react_resize_lookup, Hnd.
    split; [done | apply with_resize_node_frame].
  - rewrite react_fade_end_lookup, Hnd. destruct (decide (j = i)); simpl.
    + eexists. split; [done | apply finish_fade_frame].
    + eexists. split; [done | apply live_frame_refl].
Qed.

Lemma play_frame evs p i nd :
  nodes p !! i = Some nd →
  ∃ nd', nodes (play evs p) !! i = Some nd' ∧ live_frame nd nd'.
Proof.
  intros Hnd. induction evs as [|ev evs IH] using rev_ind.
  - exists nd. split; [done | apply live_frame_refl].
  - destruct IH as (nd1 & H1 & Hf1). rewrite play_snoc.
    destruct (react_frame ev _ _ _ H1) as (nd2 & H2 & Hf2).
    exists nd2. split; [done | by eapply live_frame_trans].
Qed.

(** *** The tree and the handlers stay as they are *)

Lemma deliver_length m p : length (nodes (deliver m p)) = length (nodes p).
Proof.
  unfold deliver. destruct (has_handler m p); [|done].
  unfold click_handler, each_node; simpl. by rewrite !length_imap.
Qed.

Lemma react_length ev p : length (nodes (react ev p)) = length (nodes p).
Proof.
  destruct ev as [n|w|i]; simpl.
  - generalize (propagation p n). intros ms. revert p.
    induction ms as [|m ms IH]; intros p; simpl; [done|].
    by rewrite IH, deliver_length.
  - unfold resize_handler; simpl. destruct (992 <=? w)%Z; simpl.
    + unfold each_node. by rewrite !length_imap.
    + destruct (w <=? 991)%Z; simpl; [|done].
      unfold each_node. by rewrite length_imap.
  - apply length_alter.
Qed.

Lemma play_length evs p : length (nodes (play evs p)) = length (nodes p).
Proof.
  induction evs as [|ev evs IH] using rev_ind; [done|].
  by rewrite play_snoc, react_length.
Qed.

Lemma play_lookup_None evs p i :
  nodes p !! i = None → nodes (play evs p) !! i = None.
Proof.
  intros Hn. apply lookup_ge_None. rewrite play_length.
  by apply lookup_ge_None.
Qed.

Lemma has_handler_play m evs p : has_handler m (play evs p) = has_handler m p.
Proof.
  unfold has_handler. destruct (nodes p !! m) as [nd|] eqn:Hnd.
  - destruct (play_frame evs p m nd Hnd) as (nd' & -> & _ & _ & Hc & _).
    apply (Hc "mobile-nav-btn"). discriminate.
  - by rewrite play_lookup_None.
Qed.

Lemma parent_play evs p n :
  nodes (play evs p) !! n ≫= parent = nodes p !! n ≫= parent.
Proof.
  destruct (nodes p !! n) as [nd|] eqn:Hnd.
  - destruct (play_frame evs p n nd Hnd) as (nd' & -> & Hp & _). simpl. done.
  - by rewrite play_lookup_None.
Qed.

Lemma ancestors_ext ns ns' fuel n :
  (∀ m, ns !! m ≫= parent = ns' !! m ≫= parent) →
  ancestors ns fuel n = ancestors ns' fuel n.
Proof.
  intros Hp. revert n. induction fuel as [|fuel IH]; intros n; simpl; [done|].
  rewrite Hp. destruct (ns' !! n ≫= parent); [|done]. by rewrite IH.
Qed.

Lemma propagation_play evs p n : propagation (play evs p) n = propagation p n.
Proof.
  unfold propagation. rewrite play_length.
  apply ancestors_ext. intros m. apply parent_play.
Qed.

Lemma reaches_toggle_play evs p n :
  reaches_toggle (play evs p) n = reaches_toggle p n.
Proof.
  unfold reaches_toggle. rewrite propagation_play.
  induction (propagation p n) as [|m ms IH]; simpl; [done|].
  by rewrite IH, has_handler_play.
Qed.



(** A click that reaches no toggle control runs no handler. *)
Lemma deliveries_unreached ms p :
  existsb (λ m, has_handler m p) ms = false →
  foldl (λ s m, deliver m s) p ms = p.
Proof.
  induction ms as [|m ms IH]; simpl; [done|].
  intros [Hm Hms]%orb_false_iff. unfold deliver at 2. rewrite Hm. by apply IH.
Qed.

Lemma react_click_unreached n p :
  reaches_toggle p n = false → react (ClickOn n) p = p.
Proof. intros Hr. simpl. by apply deliveries_unreached. Qed.

(** *** Calm pages *)






(** *** The states above are where the page settles *)

Lemma fadeToggle_flip e : fadeToggle e = css_display (flip_display (display e)) e.
Proof. by destruct e as [? ? []]. Qed.

Lemma css_display_same e : css_display (display e) e = e.
Proof. by destruct e. Qed.

Lemma settled_tag nd : tag (settled nd) = tag (elem nd).
Proof. by destruct nd as [? ? [[[] ?]|]]. Qed.

Lemma settled_classes nd : classes (settled nd) = classes (elem nd).
Proof. by destruct nd as [? ? [[[] ?]|]]. Qed.

Lemma settled_queue_fade nd : settled (queue_fade nd) = fadeToggle (settled nd).
Proof.
  rewrite fadeToggle_flip.
  destruct nd as [[t cs d] par [[[] k]|]]; try done.
  by destruct d.
Qed.

Lemma settled_finish_fade nd : settled (finish_fade nd) = settled nd.
Proof.
  destruct nd as [[t cs d] par [[[] k]|]]; [| |done].
  - destruct k as [|k]; [done|].
    unfold finish_fade, settled; cbn [fx elem]. rewrite Nat.iter_succ_r.
    by destruct d.
  - destruct k as [|k]; [done|].
    unfold finish_fade, settled; cbn [fx elem]. by rewrite Nat.iter_succ_r.
Qed.

Lemma settled_toggle_open nd :
  settled (with_elem (toggleClass "open") nd) = toggleClass "open" (settled nd).
Proof.
  destruct nd as [[t cs d] par [[[] k]|]];
    unfold settled, with_elem, toggleClass, hasClass; simpl;
    by case_bool_decide.
Qed.

Lemma settled_click_live_node this i nd :
  settled (click_live_node this i nd) = click_node this i (settled nd).
Proof.
  unfold click_live_node, click_node, by_tag, this_node.
  rewrite settled_tag.
  destruct (bool_decide (tag (elem nd) = "nav")), (bool_decide (i = this));
    by rewrite ?settled_toggle_open, ?settled_queue_fade.
Qed.

Lemma has_handler_bound m p : has_handler m p = bound m (settled_page p).
Proof.
  unfold has_handler, bound, settled_page; simpl. rewrite list_lookup_fmap.
  destruct (nodes p !! m) as [nd|]; simpl; [|done].
  unfold by_class. by rewrite settled_classes.
Qed.

Lemma settled_deliver m p :
  settled_page (deliver m p) = step (Click m) (settled_page p).
Proof.
  unfold deliver. rewrite has_handler_bound.
  destruct (bound m (settled_page p)) eqn:Hb; [|by rewrite step_unhandled].
  apply Browser_eq; [by rewrite step_click_width|].
  intros i. rewrite step_click_lookup by done. unfold settled_page.
  cbn [document]. rewrite !list_lookup_fmap, click_handler_lookup.
  destruct (nodes p !! i) as [nd|]; simpl; [|done].
  by rewrite settled_click_live_node.
Qed.

Lemma settled_deliveries ms p :
  settled_page (foldl (λ s m, deliver m s) p ms)
  = run (Click <$> ms) (settled_page p).
Proof.
  revert p. induction ms as [|m ms IH]; intros p; [done|].
  simpl. rewrite IH, settled_deliver. done.
Qed.

Lemma settled_fade_end i p :
  settled_page (react (FadeEnd i) p) = settled_page p.
Proof.
  apply Browser_eq; [done|]. intros j. unfold settled_page.
  cbn [document]. rewrite !list_lookup_fmap, react_fade_end_lookup.
  destruct (nodes p !! j) as [nd|]; simpl; [|done].
  destruct (decide (i = j)); simpl; [|done]. by rewrite settled_finish_fade.
Qed.

Lemma settled_calm nd : calm nd → settled nd = elem nd.
Proof.
  intros [Hf|Hf]; unfold settled; rewrite Hf; [done|]. apply css_display_same.
Qed.

Lemma calm_with_elem f nd : calm nd → calm (with_elem f nd).
Proof. done. Qed.

Lemma settled_resize w p :
  all_calm p →
  settled_page (react (ResizeTo w) p) = step (Resize w) (settled_page p).
Proof.
  unfold all_calm. rewrite Forall_lookup. intros Hc.
  apply Browser_eq.
  - rewrite step_resize_width. unfold settled_page; cbn [width].
    apply react_resize_viewport.
  - intros i. rewrite step_resize_lookup. unfold settled_page.
    cbn [document]. rewrite !list_lookup_fmap, react_resize_lookup.
    destruct (nodes p !! i) as [nd|] eqn:Hnd; simpl; [|done].
    rewrite !settled_calm; [done | by apply (Hc i) |].
    apply calm_with_elem. by apply (Hc i).
Qed.

Lemma settled_idle p : all_idle p → settled_page p = shown_now p.
Proof.
  unfold all_idle. rewrite Forall_lookup. intros Hi.
  apply Browser_eq; [done|]. intros i. unfold settled_page, shown_now.
  cbn [document]. rewrite !list_lookup_fmap.
  destruct (nodes p !! i) as [nd|] eqn:Hnd; simpl; [|done].
  unfold settled. by rewrite (Hi i nd Hnd).
Qed.

(** *** A wide resize on an idle page *)

Lemma resize_node_wide_frame w i e e' :
  (992 ≤ w)%Z →
  tag e' = tag e →
  (∀ c, c ≠ "open" → hasClass c e' = hasClass c e) →
  ("mobile-nav-btn" ∉ classes e → classes e' = classes e) →
  (tag e ≠ "nav" → display e' = display e) →
  resize_node w i e' = resize_node w i e.
Proof.
  intros Hw Ht Hc Hn Hd. unfold resize_node. rewrite resize_branch_wide by done.
  assert (∀ c, c ≠ "open" → c ∈ classes e' ↔ c ∈ classes e) as Hiff.
  { intros c Hne. specialize (Hc c Hne). unfold hasClass in Hc.
    by rewrite <- (bool_decide_eq_true (c ∈ classes e')),
      <- (bool_decide_eq_true (c ∈ classes e)), Hc. }
  assert (classes e' ∖ {["open"]} = classes e ∖ {["open"]}) as Hcl.
  { apply set_eq. intros c. destruct (decide (c = "open")) as [->|Hne].
    - set_solver.
    - specialize (Hiff c Hne). set_solver. }
  assert (("mobile-nav-btn" ∈ classes e') ↔ ("mobile-nav-btn" ∈ classes e)) as Hm.
  { apply Hiff. discriminate. }
  destruct e as [t cs d], e' as [t' cs' d'].
  unfold by_tag, by_class, css_display, removeClass in *; simpl in *. subst t'.
  repeat (case_bool_decide; simpl in *); try tauto; f_equal;
    first [ done | by apply Hn | by apply Hd ].
Qed.




(** *** Two runs of the page *)

(** A click on the icon inside the toggle runs the handler of the toggle:
    the panel starts to fade out and the toggle gets [open]. *)
Example click_inside_toggle_bubbles :
  propagation (live_page 1200 false block) 2 = [2; 1; 0]%nat ∧
  open_at 1 (shown_now (react (ClickOn 2) (live_page 1200 false block))) = true ∧
  fx <$> nodes (react (ClickOn 2) (live_page 1200 false block)) !! 3%nat
  = Some (Some (FadeOut, 0%nat)).
Proof. by vm_compute. Qed.

(** A resize to a wide width handled while the panel fades out: the handler
    leaves the panel displayed, and the end of the fade hides it. *)
Example wide_resize_during_fade_out :
  nav_displays (shown_now (play [ClickOn 1; ResizeTo 1200]
                             (live_page 1200 false block))) = [block] ∧
  nav_displays (shown_now (play [ClickOn 1; ResizeTo 1200; FadeEnd 3]
                             (live_page 1200 false block))) = [none] ∧
  ¬ all_calm (play [ClickOn 1] (live_page 1200 false block)).
Proof.
  split; [by vm_compute|]. split; [by vm_compute|].
  intros H. apply Forall_lookup with (i := 3%nat)
    (x := {| elem := nav block; parent := Some 0%nat; fx := Some (FadeOut, 0%nat) |})
    in H; [|by vm_compute].
  by destruct H.
Qed.

(** * The specification's claims *)




(** C2: for every width >= 992 and every prior state, after a resize event
    every [nav] element of the prior document is displayed and every toggle
    control has lost the class [open]; nothing else of the document is
    changed, so the navigation panel is displayed and the indicator is
    absent. *)
Theorem resize_wide_forces_display (b : Browser) (w : Z) :
  (992 ≤ w)%Z →
  width (step (Resize w) b) = w ∧
  tag <$> document (step (Resize w) b) = tag <$> document b ∧
  display <$> document (step (Resize w) b)
  = (λ e, if decide (tag e = "nav") then block else display e) <$> document b ∧
  classes <$> document (step (Resize w) b)
  = (λ e, if decide ("mobile-nav-btn" ∈ classes e)
          then classes e ∖ {["open"]} else classes e) <$> document b ∧
  panel_displayed (step (Resize w) b) ∧ indicator_absent (step (Resize w) b).
Proof.
  intros Hw. split; [apply step_resize_width|].
  split; [apply step_tags|].
  split; [by rewrite resize_displays, forced_display_wide|].
  split; [by apply resize_wide_classes|].
  split; [by apply resize_panel_displayed | by apply resize_indicator_absent].
Qed.

Lemma resize_wide_forces_display_witness :
  (992 ≤ 1200)%Z ∧
  width (step (Resize 1200) (page 800 true none)) = 1200%Z ∧
  tag <$> document (step (Resize 1200) (page 800 true none)) = ["a"; "nav"] ∧
  display <$> document (step (Resize 1200) (page 800 true none)) = [block; block] ∧
  classes <$> document (step (Resize 1200) (page 800 true none))
  = [{["mobile-nav-btn"; "open"]} ∖ {["open"]}; ∅] ∧
  panel_displayed (step (Resize 1200) (page 800 true none)) ∧
  indicator_absent (step (Resize 1200) (page 800 true none)).
Proof.
  split; [lia|].
  apply (resize_wide_forces_display (page 800 true none) 1200). lia.
Defined.

(** C3: for every width <= 991 and every prior state, also one in which a
    click has just opened the panel, after a resize event every [nav]
    element of the prior document has display [none] and nothing else of the
    document is changed, so the navigation panel is hidden. *)
Theorem resize_narrow_hides_panel (b : Browser) (w : Z) :
  (w ≤ 991)%Z →
  width (step (Resize w) b) = w ∧
  tag <$> document (step (Resize w) b) = tag <$> document b ∧
  classes <$> document (step (Resize w) b) = classes <$> document b ∧
  display <$> document (step (Resize w) b)
  = (λ e, if decide (tag e = "nav") then none else display e) <$> document b ∧
  panel_hidden (step (Resize w) b) ∧
  ∀ n, tag <$> document (step (Resize w) (step (Click n) b))
       = tag <$> document b ∧
       display <$> document (step (Resize w) (step (Click n) b))
       = (λ e, if decide (tag e = "nav") then none else display e)
           <$> document b ∧
       panel_hidden (step (Resize w) (step (Click n) b)).
Proof.
  intros Hw. split; [apply step_resize_width|].
  split; [apply step_tags|].
  split; [by apply resize_narrow_classes|].
  split; [by rewrite resize_displays, forced_display_narrow|].
  split; [by apply resize_panel_hidden|].
  intros n. split; [by rewrite !step_tags|].
  split; [by rewrite click_then_resize_displays, forced_display_narrow|].
  by apply resize_panel_hidden.
Qed.

Lemma resize_narrow_hides_panel_witness :
  (800 ≤ 991)%Z ∧
  display <$> document (step (Resize 800) (page 800 false block)) = [block; none] ∧
  panel_hidden (step (Resize 800) (page 800 false block)) ∧
  tag <$> document (step (Resize 800) (step (Click 0) (page 800 false none)))
  = ["a"; "nav"] ∧
  display <$> document (step (Resize 800) (step (Click 0) (page 800 false none)))
  = [block; none] ∧
  panel_hidden (step (Resize 800) (step (Click 0) (page 800 false none))).
Proof.
  split; [lia|].
  destruct (resize_narrow_hides_panel (page 800 false block) 800)
    as (_ & _ & _ & H1 & H2 & _); [lia|].
  destruct (resize_narrow_hides_panel (page 800 false none) 800)
    as (_ & _ & _ & _ & _ & H3); [lia|].
  exact (conj H1 (conj H2 (H3 0%nat))).
Defined.

(** C4: while the width is held narrow, [k] clicks on the toggle control from
    the closed state leave the panel open for odd [k] and closed for even
    [k]; two consecutive clicks restore any state, and each click flips the
    display of the panel and the class [open] of the clicked control. *)
Theorem clicks_alternate (b : Browser) (this k : nat) :
  narrow b → bound this b = true →
  panel_hidden b → open_at this b = false →
  let b' := run (replicate k (Click this)) b in
  narrow b' ∧
  (if Nat.odd k then panel_displayed b' ∧ open_at this b' = true
   else panel_hidden b' ∧ open_at this b' = false) ∧
  (∀ s, step (Click this) (step (Click this) s) = s) ∧
  open_at this (step (Click this) b') = negb (open_at this b') ∧
  nav_displays (step (Click this) b') = flip_display <$> nav_displays b'.
Proof.
  intros Hn Hb Hh Ho b'. subst b'.
  assert (bound this (run (replicate k (Click this)) b) = true) as Hb'
    by (by rewrite bound_run).
  split; [unfold narrow; by rewrite run_clicks_width|].
  split; [by apply run_clicks_after|].
  split; [intros s; apply step_click_involutive|].
  split; [by apply open_at_click | by apply nav_displays_click].
Qed.

Lemma clicks_alternate_witness :
  narrow (page 800 false none) ∧ bound 0 (page 800 false none) = true ∧
  panel_hidden (page 800 false none) ∧ open_at 0 (page 800 false none) = false ∧
  panel_displayed (run (replicate 3 (Click 0)) (page 800 false none)) ∧
  open_at 0 (run (replicate 3 (Click 0)) (page 800 false none)) = true.
Proof.
  assert (narrow (page 800 false none)) as Hn by (unfold narrow; simpl; lia).
  assert (panel_hidden (page 800 false none)) as Hh
    by (repeat constructor; intros; discriminate).
  repeat (split; [done|]).
  exact (proj1 (proj2 (clicks_alternate (page 800 false none) 0 3
                         Hn eq_refl Hh eq_refl))).
Defined.

(** C5: the resize handler tests [>= 992] and then [<= 991]; width 992 takes
    the wide branch as 2000 does, width 991 the narrow branch as 0 does, and
    at every integer width exactly one of the two tests holds and its branch
    runs, so no width is left unhandled. *)
Theorem resize_branches_cover :
  (∀ doc, on_resize (mkBrowser 992 doc) = wide_branch (mkBrowser 992 doc) ∧
          on_resize (mkBrowser 2000 doc) = wide_branch (mkBrowser 2000 doc) ∧
          document (on_resize (mkBrowser 992 doc))
          = document (on_resize (mkBrowser 2000 doc))) ∧
  (∀ doc, on_resize (mkBrowser 991 doc) = narrow_branch (mkBrowser 991 doc) ∧
          on_resize (mkBrowser 0 doc) = narrow_branch (mkBrowser 0 doc) ∧
          document (on_resize (mkBrowser 991 doc))
          = document (on_resize (mkBrowser 0 doc))) ∧
  (∀ b, ((992 ≤ width b)%Z ∧ ¬ (width b ≤ 991)%Z ∧
         resize_branch (width b) = Wide ∧ on_resize b = wide_branch b) ∨
        ((width b ≤ 991)%Z ∧ ¬ (992 ≤ width b)%Z ∧
         resize_branch (width b) = Narrow ∧ on_resize b = narrow_branch b)) ∧
  (∀ w, resize_branch w ≠ Neither).
Proof.
  split; [done|]. split; [done|]. split; [|apply resize_branch_total].
  intros b. rewrite on_resize_branch.
  destruct (Z.le_gt_cases 992 (width b)) as [Hge|Hlt].
  - left. rewrite resize_branch_wide by done. repeat split; [done|lia].
  - right. rewrite resize_branch_narrow by lia. repeat split; lia.
Qed.

(** C6: two sequences of resize events that end with a resize at the same
    width leave the navigation panels with the same displays, namely the one
    the final width alone forces. *)
Theorem resize_final_width_decides (b : Browser) (ws1 ws2 : list Z) (w : Z) :
  nav_displays (run ((Resize <$> ws1) ++ [Resize w]) b)
  = nav_displays (run ((Resize <$> ws2) ++ [Resize w]) b) ∧
  nav_displays (run ((Resize <$> ws1) ++ [Resize w]) b)
  = (λ _, forced_display w) <$> nav_displays b.
Proof.
  rewrite !run_snoc, !nav_displays_resize. split.
  - apply const_fmap_length. by rewrite !nav_displays_length_run.
  - apply const_fmap_length. by rewrite nav_displays_length_run.
Qed.

(** C7: at a fixed width the resize handler is idempotent; a second resize
    event at the same width changes nothing. *)
Theorem resize_idempotent (b : Browser) (w : Z) :
  on_resize (on_resize b) = on_resize b ∧
  step (Resize w) (step (Resize w) b) = step (Resize w) b.
Proof. split; [apply on_resize_idemp | apply step_resize_idemp]. Qed.




(** C9: a resize event at a width <= 991 leaves every class set, so also the
    class [open] of the toggle control, as it was; an indicator shown before
    stays shown while the panel is hidden. *)
Theorem resize_narrow_keeps_indicator (b : Browser) (w : Z) :
  (w ≤ 991)%Z →
  classes <$> document (step (Resize w) b) = classes <$> document b ∧
  (∀ n, open_at n (step (Resize w) b) = open_at n b) ∧
  (∀ n, open_at n b = true →
        open_at n (step (Resize w) b) = true ∧ panel_hidden (step (Resize w) b)).
Proof.
  intros Hw. split; [by apply resize_narrow_classes|].
  split; [intros n; by apply resize_narrow_open_at|].
  intros n Ho. split; [by rewrite resize_narrow_open_at|].
  by apply resize_panel_hidden.
Qed.

Lemma resize_narrow_keeps_indicator_witness :
  (600 ≤ 991)%Z ∧
  open_at 0 (step (Resize 600) (page 800 true block)) = true ∧
  panel_hidden (step (Resize 600) (page 800 true block)).
Proof.
  split; [lia|].
  destruct (resize_narrow_keeps_indicator (page 800 true block) 600)
    as (_ & _ & H); [lia|].
  exact (H 0%nat eq_refl).
Defined.

(** C10: the click handler does not read the window width: a click on the
    toggle control does the same to the document at every width, leaves the
    width alone, and flips the display of the panel and the class [open] of
    the clicked control, on a wide viewport as on a narrow one. *)
Theorem click_ignores_width (b : Browser) (w : Z) (n : nat) :
  bound n b = true →
  document (step (Click n) {| width := w; document := document b |})
  = document (step (Click n) b) ∧
  width (step (Click n) b) = width b ∧
  open_at n (step (Click n) b) = negb (open_at n b) ∧
  nav_displays (step (Click n) b) = flip_display <$> nav_displays b.
Proof.
  intros Hb. split; [|split; [|split]].
  - simpl. unfold bound in *. simpl. by rewrite Hb.
  - apply step_click_width.
  - by apply open_at_click.
  - by apply nav_displays_click.
Qed.

Lemma click_ignores_width_witness :
  bound 0 (page 1200 false block) = true ∧
  bound 0 (page 300 false block) = true ∧
  document (step (Click 0) (page 1200 false block))
  = document (step (Click 0) (page 300 false block)) ∧
  open_at 0 (step (Click 0) (page 1200 false block)) = true ∧
  nav_displays (step (Click 0) (page 1200 false block)) = [none].
Proof.
  destruct (click_ignores_width (page 300 false block) 1200 0 eq_refl)
    as (H1 & _ & _ & _).
  destruct (click_ignores_width (page 1200 false block) 1200 0 eq_refl)
    as (_ & _ & H3 & H4).
  exact (conj eq_refl (conj eq_refl (conj H1 (conj H3 H4)))).
Defined.

(** * Further properties of the two handlers *)

(** X1: no sequence of events adds, removes or renames an element, and the
    nodes carrying the click handler stay the same: the handlers only call
    [css], [fadeToggle], [toggleClass('open')] and [removeClass('open')]. *)
Theorem events_keep_structure (evs : list Event) (b : Browser) :
  length (document (run evs b)) = length (document b) ∧
  tag <$> document (run evs b) = tag <$> document b ∧
  ∀ n, bound n (run evs b) = bound n b.
Proof.
  split; [apply run_length|]. split; [apply run_tags|].
  intros n. apply bound_run.
Qed.

(** X2: [open] is the only class the script ever adds or removes: for every
    other class name, which elements carry it is the same after any sequence
    of events. *)
Theorem only_open_class_changes (evs : list Event) (b : Browser) (c : string) :
  c ≠ "open" →
  hasClass c <$> document (run evs b) = hasClass c <$> document b.
Proof.
  intros Hc. apply list_eq. intros i. rewrite !list_lookup_fmap.
  destruct (document b !! i) as [e|] eqn:He.
  - destruct (run_frame evs b i e He) as (e' & -> & _ & Hcl & _).
    simpl. by rewrite Hcl.
  - apply lookup_ge_None in He. rewrite <- (run_length evs) in He.
    apply lookup_ge_None in He. by rewrite He.
Qed.

Lemma only_open_class_changes_witness :
  "mobile-nav-btn" ≠ "open" ∧
  hasClass "mobile-nav-btn"
    <$> document (run [Click 0; Resize 1200; Click 1; Resize 500]
                    (two_toggle_page 800))
  = [true; true; false; false].
Proof.
  split; [discriminate|].
  apply (only_open_class_changes [Click 0; Resize 1200; Click 1; Resize 500]
           (two_toggle_page 800) "mobile-nav-btn").
  discriminate.
Defined.

(** X3: the display of an element that is not a [nav] element is never
    changed, whatever events occur. *)
Theorem other_displays_kept (evs : list Event) (b : Browser) (i : nat)
    (e : Element) :
  document b !! i = Some e → tag e ≠ "nav" →
  display <$> document (run evs b) !! i = Some (display e).
Proof.
  intros He Ht.
  destruct (run_frame evs b i e He) as (e' & -> & _ & _ & Hd).
  simpl. by rewrite Hd.
Qed.

Lemma other_displays_kept_witness :
  display <$> document (run [Click 0; Resize 500; Click 1; Resize 1200]
                          (two_toggle_page 800)) !! 2%nat
  = Some block.
Proof.
  apply (other_displays_kept [Click 0; Resize 500; Click 1; Resize 1200]
           (two_toggle_page 800) 2
           {| tag := "h1"; classes := {["title"]}; display := block |}).
  - reflexivity.
  - discriminate.
Defined.

(** X4: two clicks commute: clicking node [n] and then node [m] leaves the
    same state as clicking [m] and then [n]. *)
Theorem clicks_commute (n m : nat) (b : Browser) :
  step (Click n) (step (Click m) b) = step (Click m) (step (Click n) b).
Proof.
  destruct (bound n b) eqn:Hn, (bound m b) eqn:Hm.
  - apply Browser_eq; [by rewrite !step_click_width|].
    intros i. rewrite !step_click_lookup by (by rewrite ?bound_step).
    destruct (document b !! i) as [e|]; simpl; [|done].
    by rewrite click_node_comm.
  - rewrite (step_unhandled m b) by done.
    by rewrite (step_unhandled m) by (by rewrite bound_step).
  - rewrite (step_unhandled n b) by done.
    by rewrite (step_unhandled n) by (by rewrite bound_step).
  - by rewrite !step_unhandled by (by rewrite ?step_unhandled).
Qed.

(** X5: a resize to a width >= 992 erases what came before it, once the
    fades have ended: from a page on which no fade runs, any clicks, resizes
    and ends of fades after which no fade runs either, followed by the
    resize, leave exactly the page the resize alone would. *)
Theorem wide_resize_erases_history (p : Page) (evs : list LiveEvent) (w : Z) :
  (992 ≤ w)%Z → all_idle p → all_idle (play evs p) →
  play (evs ++ [ResizeTo w]) p = react (ResizeTo w) p.
Proof.
  unfold all_idle. rewrite !Forall_lookup. intros Hw Hi Hi'.
  rewrite play_snoc. apply Page_eq; [by rewrite !react_resize_viewport|].
  intros i. rewrite !react_resize_lookup.
  destruct (nodes p !! i) as [nd|] eqn:Hnd; [|by rewrite play_lookup_None].
  destruct (play_frame evs p i nd Hnd) as (nd' & Hnd' & Hp & Ht & Hc & Hn & Hd).
  rewrite Hnd'. simpl. f_equal.
  pose proof (Hi i nd Hnd) as Hf. pose proof (Hi' i nd' Hnd') as Hf'.
  unfold idle in Hf, Hf'.
  destruct nd as [e par f], nd' as [e' par' f']. unfold with_elem.
  simpl in *. subst. f_equal.
  apply resize_node_wide_frame; try done.
  intros Hnav. by apply Hd.
Qed.

Lemma wide_resize_erases_history_witness :
  (992 ≤ 1200)%Z ∧ all_idle (live_page 800 false none) ∧
  all_idle (play [ClickOn 2; FadeEnd 3] (live_page 800 false none)) ∧
  play ([ClickOn 2; FadeEnd 3] ++ [ResizeTo 1200]) (live_page 800 false none)
  = react (ResizeTo 1200) (live_page 800 false none).
Proof.
  assert (992 ≤ 1200)%Z as Hw by lia.
  assert (all_idle (live_page 800 false none)) as Hi by (repeat constructor).
  assert (all_idle (play [ClickOn 2; FadeEnd 3] (live_page 800 false none)))
    as Hi' by (repeat constructor).
  split; [exact Hw|]. split; [exact Hi|]. split; [exact Hi'|].
  exact (wide_resize_erases_history (live_page 800 false none)
           [ClickOn 2; FadeEnd 3] 1200 Hw Hi Hi').
Defined.

(** X6: a resize absorbs the resize before it whenever the first width is
    <= 991 or the second is >= 992: the two resizes then leave the state the
    second alone would. *)
Theorem resize_absorbs_earlier_resize (b : Browser) (w1 w2 : Z) :
  (w1 ≤ 991)%Z ∨ (992 ≤ w2)%Z →
  step (Resize w2) (step (Resize w1) b) = step (Resize w2) b.
Proof.
  intros Hw. apply Browser_eq; [by rewrite !step_resize_width|].
  intros i. rewrite !step_resize_lookup.
  destruct (document b !! i) as [e|]; simpl; [|done].
  by rewrite resize_node_absorbs.
Qed.

Lemma resize_absorbs_earlier_resize_witness :
  ((500 ≤ 991)%Z ∨ (992 ≤ 700)%Z) ∧
  step (Resize 700) (step (Resize 500) (page 1200 true block))
  = step (Resize 700) (page 1200 true block).
Proof.
  split; [left; lia|].
  apply (resize_absorbs_earlier_resize (page 1200 true block) 500 700).
  left. lia.
Defined.

(** X7: the narrow branch hides the panel without removing [open], so a
    resize at a width <= 991 while the panel is open leaves the indicator
    inverted: after [k] further clicks on the toggle the panel is displayed
    exactly when the toggle does not carry [open]. *)
Theorem stale_indicator_inverts (b : Browser) (n k : nat) (w : Z) :
  bound n b = true → panel_hidden b → open_at n b = false → (w ≤ 991)%Z →
  let b' := run (Click n :: Resize w :: replicate k (Click n)) b in
  if Nat.odd k then panel_displayed b' ∧ open_at n b' = false
  else panel_hidden b' ∧ open_at n b' = true.
Proof.
  intros Hb Hh Ho Hw b'. subst b'.
  change (run (Click n :: Resize w :: replicate k (Click n)) b)
    with (run (replicate k (Click n)) (step (Resize w) (step (Click n) b))).
  apply run_clicks_stale.
  - by rewrite !bound_step.
  - by apply resize_panel_hidden.
  - by rewrite resize_narrow_open_at, open_at_click, Ho.
Qed.

Lemma stale_indicator_inverts_witness :
  bound 0 (page 800 false none) = true ∧ panel_hidden (page 800 false none) ∧
  open_at 0 (page 800 false none) = false ∧ (600 ≤ 991)%Z ∧
  panel_displayed
    (run (Click 0 :: Resize 600 :: replicate 1 (Click 0)) (page 800 false none)) ∧
  open_at 0
    (run (Click 0 :: Resize 600 :: replicate 1 (Click 0)) (page 800 false none))
  = false.
Proof.
  assert (panel_hidden (page 800 false none)) as Hh
    by (repeat constructor; intros; discriminate).
  assert (600 ≤ 991)%Z as Hw by lia.
  split; [reflexivity|]. split; [exact Hh|]. split; [reflexivity|].
  split; [exact Hw|].
  exact (stale_indicator_inverts (page 800 false none) 0 1 600
           eq_refl Hh eq_refl Hw).
Defined.

(** X8: only the clicked toggle gets its class flipped while every click
    toggles the panel: clicks on two different toggle controls leave the
    panel as it was and both toggles with their [open] class flipped. *)
Theorem two_toggles_flip_independently (b : Browser) (n m : nat) :
  bound n b = true → bound m b = true → n ≠ m →
  let b' := step (Click m) (step (Click n) b) in
  nav_displays b' = nav_displays b ∧
  open_at n b' = negb (open_at n b) ∧
  open_at m b' = negb (open_at m b).
Proof.
  intros Hn Hm Hne b'. subst b'.
  assert (bound m (step (Click n) b) = true) as Hm' by (by rewrite bound_step).
  split; [|split].
  - rewrite !nav_displays_click by done.
    rewrite <- list_fmap_compose. rewrite <- (list_fmap_id (nav_displays b)) at 2.
    apply list_fmap_ext. intros _ d _. apply flip_display_involutive.
  - rewrite open_at_click_other by done. by apply open_at_click.
  - rewrite open_at_click by done. by rewrite open_at_click_other.
Qed.

Lemma two_toggles_flip_independently_witness :
  bound 0 (two_toggle_page 800) = true ∧ bound 1 (two_toggle_page 800) = true ∧
  0%nat ≠ 1%nat ∧
  nav_displays (step (Click 1) (step (Click 0) (two_toggle_page 800))) = [none] ∧
  open_at 0 (step (Click 1) (step (Click 0) (two_toggle_page 800))) = true ∧
  open_at 1 (step (Click 1) (step (Click 0) (two_toggle_page 800))) = true.
Proof.
  assert (0%nat ≠ 1%nat) as Hne by discriminate.
  split; [reflexivity|]. split; [reflexivity|]. split; [exact Hne|].
  exact (two_toggles_flip_independently (two_toggle_page 800) 0 1
           eq_refl eq_refl Hne).
Defined.

(** X9: a click that reaches no toggle control, neither on its target nor on
    an ancestor of it, can be dropped from any sequence of clicks, resizes
    and ends of fades without changing the final page. *)
Theorem unreached_click_dropped (p : Page) (n : nat)
    (evs1 evs2 : list LiveEvent) :
  reaches_toggle p n = false →
  play (evs1 ++ ClickOn n :: evs2) p = play (evs1 ++ evs2) p.
Proof.
  intros Hr. rewrite !play_app.
  change (play (ClickOn n :: evs2) (play evs1 p))
    with (play evs2 (react (ClickOn n) (play evs1 p))).
  by rewrite react_click_unreached by (by rewrite reaches_toggle_play).
Qed.

Lemma unreached_click_dropped_witness :
  reaches_toggle (live_page 800 false none) 4 = false ∧
  play ([ClickOn 2; ResizeTo 1200] ++ ClickOn 4 :: [FadeEnd 3])
    (live_page 800 false none)
  = play ([ClickOn 2; ResizeTo 1200] ++ [FadeEnd 3]) (live_page 800 false none).
Proof.
  split; [reflexivity|].
  apply (unreached_click_dropped (live_page 800 false none) 4
           [ClickOn 2; ResizeTo 1200] [FadeEnd 3]).
  reflexivity.
Defined.

(** X10: from any state, [k] clicks on the same node amount to one click when
    [k] is odd and to none when [k] is even. *)
Theorem clicks_collapse_by_parity (b : Browser) (n k : nat) :
  run (replicate k (Click n)) b = if Nat.odd k then step (Click n) b else b.
Proof.
  induction k as [|k IH]; [done|].
  rewrite replicate_S_end, run_snoc, IH, Nat.odd_succ, <- Nat.negb_odd.
  destruct (Nat.odd k); cbn [negb]; [apply step_click_involutive | done].
Qed.

(** X11: from any state, a resize to a width >= 992 followed by a resize to
    a width <= 991 leaves every [nav] element of the document with display
    [none] and every toggle control without [open], and changes nothing
    else: every panel is hidden and no toggle control carries [open]. *)
Theorem wide_then_narrow_closes (b : Browser) (w1 w2 : Z) :
  (992 ≤ w1)%Z → (w2 ≤ 991)%Z →
  let s := step (Resize w2) (step (Resize w1) b) in
  width s = w2 ∧
  tag <$> document s = tag <$> document b ∧
  display <$> document s
  = (λ e, if decide (tag e = "nav") then none else display e) <$> document b ∧
  classes <$> document s
  = (λ e, if decide ("mobile-nav-btn" ∈ classes e)
          then classes e ∖ {["open"]} else classes e) <$> document b ∧
  panel_hidden s ∧ indicator_absent s.
Proof.
  intros H1 H2 s. subst s. split; [apply step_resize_width|].
  split; [by rewrite !step_tags|].
  split.
  { apply (fmap_lookup_lift display (λ i e, resize_node w2 i (resize_node w1 i e))).
    - intros i. rewrite !step_resize_lookup. by destruct (document b !! i).
    - intros i e _. rewrite resize_node_display, resize_node_tag.
      rewrite forced_display_narrow by done.
      destruct (decide (tag e = "nav")); [done|].
      by apply resize_node_other_display. }
  split; [by rewrite resize_narrow_classes, resize_wide_classes|].
  split; [by apply resize_panel_hidden|].
  apply resize_narrow_indicator_absent; [done|].
  by apply resize_indicator_absent.
Qed.

Lemma wide_then_narrow_closes_witness :
  (992 ≤ 1200)%Z ∧ (800 ≤ 991)%Z ∧
  document (step (Resize 800) (step (Resize 1200) (page 800 true block)))
  = [removeClass "open" (btn true); nav none] ∧
  panel_hidden (step (Resize 800) (step (Resize 1200) (page 800 true block))) ∧
  indicator_absent (step (Resize 800) (step (Resize 1200) (page 800 true block))).
Proof.
  assert (992 ≤ 1200)%Z as H1 by lia. assert (800 ≤ 991)%Z as H2 by lia.
  split; [exact H1|]. split; [exact H2|].
  destruct (wide_then_narrow_closes (page 800 true block) 1200 800 H1 H2)
    as (_ & _ & _ & _ & Hp & Hi).
  split; [reflexivity|]. exact (conj Hp Hi).
Defined.

(** X12: the states without fades are where the page settles.  The end of a
    fade leaves the settled state as it is; a click acts on it as one run of
    the click handler per toggle control on its way up the tree; a resize
    acts on it as the resize handler, provided no fade-out is running and no
    fade is waiting when it is handled.  On a page where no fade runs the
    settled state is what is on the screen. *)
Theorem settled_simulation (p : Page) (ev : LiveEvent) :
  (∀ w, ev = ResizeTo w → all_calm p) →
  settled_page (react ev p) = run (stops p ev) (settled_page p) ∧
  (all_idle p → settled_page p = shown_now p).
Proof.
  intros Hc. split; [|apply settled_idle].
  destruct ev as [n|w|i].
  - apply settled_deliveries.
  - apply settled_resize. by apply (Hc w).
  - apply settled_fade_end.
Qed.

Lemma settled_simulation_witness :
  settled_page (react (ClickOn 2) (play [ClickOn 2] (live_page 800 false none)))
  = run [Click 2; Click 1; Click 0]
      (settled_page (play [ClickOn 2] (live_page 800 false none))) ∧
  all_calm (play [ClickOn 2] (live_page 800 false none)) ∧
  settled_page (react (ResizeTo 600) (play [ClickOn 2] (live_page 800 false none)))
  = run [Resize 600] (settled_page (play [ClickOn 2] (live_page 800 false none))).
Proof.
  assert (all_calm (play [ClickOn 2] (live_page 800 false none))) as Hc.
  { repeat constructor; first [by left | by right]. }
  split; [|split; [exact Hc|]].
  - apply (settled_simulation (play [ClickOn 2] (live_page 800 false none))
             (ClickOn 2)).
    intros w Hw. discriminate Hw.
  - apply (settled_simulation (play [ClickOn 2] (live_page 800 false none))
             (ResizeTo 600)).
    intros w _. exact Hc.
Defined.
